(** * fcache: an in-process key-value cache with per-entry expiration

    A shallow embedding of [cache.go].  The cache is a record holding the
    entry map and the state of its mutex; every public method is a
    computation over that record whose outcome says whether the call
    returned, or whether the calling goroutine is parked for ever inside
    [mu.Lock].  The wall clock is an input: each place where the Go code
    reads [time.Now()] takes the reading as an argument. *)

From stdpp Require Import gmap strings list fin_maps relations.
From Stdlib Require Import ZArith Lia.

Local Open Scope Z_scope.

(** ** Signed 64-bit integers ([int64], [time.Duration]) *)

Definition min_int64 : Z := - 2 ^ 63.
Definition max_int64 : Z := 2 ^ 63 - 1.

Definition int64 (z : Z) : Prop := min_int64 <= z <= max_int64.

(** Two's complement reduction of an integer to [int64]. *)
Definition wrap64 (z : Z) : Z := (z + 2 ^ 63) mod 2 ^ 64 - 2 ^ 63.

(** ** Constants *)

Definition NoExpiration : Z := -1.
Definition DefaultExpiration : Z := 0.

(** ** Errors

    Every error of [cache.go] is built by [fmt.Errorf]; it is kept as the
    format string and its arguments.  Errors of the gob decoder and encoder
    come from outside the package. *)

Inductive error : Type :=
| Errorf (format : string) (args : list string)
| GobError (msg : string).

Section Cache.

(** Stored objects are opaque; an [interface{}] is either [nil] or holds a
    value.  [stream] is what an [io.Writer] receives and an [io.Reader]
    delivers. *)
Context {V stream : Type}.

Definition interface : Type := option V.
Definition nil : interface := None.

(** The fields of [Item] as [set], [DeleteExpired] and [get] use them. *)
Record Item : Type := mkItem {
  Object : interface;
  Expiration : Z
}.

(** Modelled from the spec: the method [Item.Expired], whose file is not
    part of the sources.  "An entry with Expiration > 0 is expired when the
    current time strictly exceeds Expiration; an entry with Expiration <= 0
    is never expired."  [now] is the reading of [time.Now().UnixNano()]. *)
Definition Expired (now : Z) (item : Item) : bool :=
  (0 <? Expiration item) && (Expiration item <? now).

(** The [Cache] struct.  [mu] is [true] while the mutex is held.  The
    [stopGc] channel is unbuffered and so holds no data of its own; the
    goroutines that meet on it are modelled in [system] below. *)
Record Cache : Type := mkCache {
  defaultExpiration : Z;
  items : gmap string Item;
  mu : bool;
  gcInterval : Z
}.

Definition with_items (its : gmap string Item) (c : Cache) : Cache :=
  mkCache (defaultExpiration c) its (mu c) (gcInterval c).

Definition with_mu (b : bool) (c : Cache) : Cache :=
  mkCache (defaultExpiration c) (items c) b (gcInterval c).

(** ** Outcomes of a method call *)

Inductive outcome (A : Type) : Type :=
| Returned (a : A) (c : Cache)
    (* the call returned [a] and left the cache as [c] *)
| Blocked (c : Cache)
    (* the goroutine is parked in [mu.Lock] on a mutex that is held *)
| Fatal (c : Cache).
    (* [mu.Unlock] of a mutex that is not held *)

Arguments Returned {A} a c.
Arguments Blocked {A} c.
Arguments Fatal {A} c.

Definition M (A : Type) : Type := Cache -> outcome A.

Definition ret {A} (a : A) : M A := fun c => Returned a c.

Definition bind {A B} (m : M A) (f : A -> M B) : M B :=
  fun c =>
    match m c with
    | Returned a c' => f a c'
    | Blocked c' => Blocked c'
    | Fatal c' => Fatal c'
    end.

Notation "'let*' x := m 'in' k" := (bind m (fun x => k))
  (at level 10, x name, m at level 100, k at level 200).
Notation "m >> k" := (bind m (fun _ => k))
  (at level 100, k at level 200, right associativity).

(** Reading and writing the fields of the receiver [c]. *)
Definition gets {A} (f : Cache -> A) : M A := fun c => Returned (f c) c.
Definition modify (f : Cache -> Cache) : M unit := fun c => Returned tt (f c).

(** [c.mu.Lock()]: the mutex is not reentrant. *)
Definition mu_Lock : M unit :=
  fun c => if mu c then Blocked c else Returned tt (with_mu true c).

(** [c.mu.Unlock()]. *)
Definition mu_Unlock : M unit :=
  fun c => if mu c then Returned tt (with_mu false c) else Fatal c.

(** ** The unexported helpers, which run with the mutex held *)

Definition delete_ (k : string) (c : Cache) : Cache :=
  with_items (delete k (items c)) c.

(** [now] is the reading of the clock inside [set]. *)
Definition set (now : Z) (k : string) (v : interface) (d : Z) (c : Cache) : Cache :=
  let d := if d =? DefaultExpiration then defaultExpiration c else d in
  let e := if 0 <? d then wrap64 (now + d) else 0 in
  with_items (<[k := mkItem v e]> (items c)) c.

(** [now] is the reading of the clock inside [item.Expired()]. *)
Definition get (now : Z) (k : string) (c : Cache) : interface * bool :=
  match items c !! k with
  | None => (nil, false)
  | Some item => if Expired now item then (nil, false) else (Object item, true)
  end.

(** An entry is live when it is present and not expired: what [get]
    reports as found. *)
Definition live (now : Z) (k : string) (c : Cache) : bool :=
  snd (get now k c).

(** ** The exported methods *)

Definition Set_ (now : Z) (k : string) (v : interface) (d : Z) : M unit :=
  mu_Lock >>
  modify (set now k v d) >>
  mu_Unlock.

Definition Get (now : Z) (k : string) : M (interface * bool) :=
  mu_Lock >>
  let* r := gets (get now k) in
  mu_Unlock >>
  ret r.

(** [now] is read by the existence check, [now'] by the write. *)
Definition Add (now now' : Z) (k : string) (v : interface) (d : Z) : M (option error) :=
  mu_Lock >>
  let* r := gets (get now k) in
  if snd r then
    mu_Unlock >>
    ret (Some (Errorf "Item % s already exists" [k]))
  else
    modify (set now' k v d) >>
    mu_Unlock >>
    ret None.

Definition Update (now now' : Z) (k : string) (v : interface) (d : Z) : M (option error) :=
  mu_Lock >>
  let* r := gets (get now k) in
  if negb (snd r) then
    mu_Lock >>
    ret (Some (Errorf "Item %s doesn't exist" [k]))
  else
    modify (set now' k v d) >>
    mu_Unlock >>
    ret None.

Definition Inc (now : Z) (k : string) (n : Z) : M (option error) :=
  mu_Lock >>
  let* r := gets (get now k) in
  if negb (snd r) then
    mu_Lock >>
    ret (Some (Errorf "Item %s doesn't exist" [k]))
  else
    mu_Unlock >>
    ret None.

Definition Delete (k : string) : M unit :=
  mu_Lock >>
  modify (delete_ k) >>
  mu_Unlock.

Definition Count : M nat :=
  mu_Lock >>
  let* n := gets (fun c => size (items c)) in
  mu_Unlock >>
  ret n.

Definition Flush : M unit :=
  mu_Lock >>
  modify (with_items ∅) >>
  mu_Unlock.


(** ** The sweep *)

(** The body of the loop of [DeleteExpired] at one entry. *)
Definition sweep_step (now : Z) (c : Cache) (kv : string * Item) : Cache :=
  if (Expiration kv.2 >? 0) && (now >? Expiration kv.2)
  then delete_ kv.1 c
  else c.

(** [range c.items] visits every entry once, in an order that Go leaves
    open; the loop is run over the enumeration [l]. *)
Definition sweep_loop (now : Z) (l : list (string * Item)) (c : Cache) : Cache :=
  foldl (sweep_step now) c l.

(** [now] is read once, before the mutex is taken. *)
Definition DeleteExpired (now : Z) : M unit :=
  mu_Lock >>
  modify (fun c => sweep_loop now (map_to_list (items c)) c) >>
  mu_Unlock.

(** ** Snapshots

    The gob package is outside the repository and is a parameter.
    [gob_Register objs] says whether the calls [gob.Register(v.Object)],
    made for the stored values [objs] in the order of the [range], all
    return ([false]: one of them panics); the answer depends on all the
    values together and on what the process has registered before, which is
    part of the parameter.  The encoder yields the bytes it wrote, or an
    error or a panic together with what it had written by then.  The
    decoder yields the decoded map or an error. *)

Inductive encoded : Type :=
| Encoded (s : stream)
| EncodeError (written : option stream) (err : error)
| EncodePanic (written : option stream).

Class Gob : Type := {
  gob_Register : list interface -> bool;
  gob_Encode : gmap string Item -> encoded;
  gob_Decode : stream -> gmap string Item + error
}.

Context `{Gob}.

(** [Save] returns the error and, next to it, what the writer received
    ([None]: nothing).  The deferred [Unlock] runs on every path, also on a
    panic, which the deferred [recover] then turns into an error.  The
    registrations come before the encoder is used, so a panic of theirs
    leaves the writer empty. *)
Definition Save : M (option stream * option error) :=
  mu_Lock >>
  let* its := gets items in
  if gob_Register (Object <$> (map_to_list its).*2)
  then
    match gob_Encode its with
    | Encoded s => mu_Unlock >> ret (Some s, None)
    | EncodeError written err => mu_Unlock >> ret (written, Some err)
    | EncodePanic written =>
        mu_Unlock >>
        ret (written, Some (Errorf "Error registering item types with Gob library" []))
    end
  else
    mu_Unlock >>
    ret (None, Some (Errorf "Error registering item types with Gob library" [])).

(** The body of the loop of [Load] at one decoded entry.  [clock k] is the
    reading of the clock in the call [item.Expired()] made for key [k]. *)
Definition merge_step (clock : string -> Z) (c : Cache) (kv : string * Item) : Cache :=
  match items c !! kv.1 with
  | Some item =>
      if Expired (clock kv.1) item
      then with_items (<[kv.1 := kv.2]> (items c)) c
      else c
  | None => with_items (<[kv.1 := kv.2]> (items c)) c
  end.

Definition merge_loop (clock : string -> Z) (l : list (string * Item)) (c : Cache) : Cache :=
  foldl (merge_step clock) c l.

Definition Load (clock : string -> Z) (r : stream) : M (option error) :=
  match gob_Decode r with
  | inr err => ret (Some err)
  | inl decoded =>
      mu_Lock >>
      modify (merge_loop clock (map_to_list decoded)) >>
      mu_Unlock >>
      ret None
  end.

(** ** Snapshots in files

    The answers of the operating system are inputs, as the clock is:
    [os_Create file] is the error of [os.Create(file)] ([None]: the file is
    there and open), [os_Open file] the content that [os.Open(file)] gives
    to read or its error, and [closed] the error of [f.Close()].
    [SaveToFile] returns, next to its error, what was written to the
    file. *)

Definition SaveToFile (os_Create : string -> option error) (closed : option error)
    (file : string) : M (option stream * option error) :=
  match os_Create file with
  | Some err => ret (None, Some err)
  | None =>
      let* r := Save in
      match r.2 with
      | Some err => ret (r.1, Some err)
      | None => ret (r.1, closed)
      end
  end.

Definition LoadFromFile (os_Open : string -> stream + error) (closed : option error)
    (clock : string -> Z) (file : string) : M (option error) :=
  match os_Open file with
  | inr err => ret (Some err)
  | inl r =>
      let* e := Load clock r in
      match e with
      | Some err => ret (Some err)
      | None => ret closed
      end
  end.

(** ** The sweeper goroutine and its stop channel *)

(** Where the goroutine that runs [gcLoop] is: waiting in its [select],
    parked in the [mu.Lock] of [DeleteExpired], returned, or stopped by the
    panic of [time.NewTicker] on an interval that is not positive (a panic
    that nothing recovers ends the program). *)
Inductive sweeper_state : Type := InSelect | InLock | Exited | Crashed.

(** A cache together with its sweeper and a caller that still has [sending]
    calls of [StopGc] to get through; the caller is parked in the send
    [c.stopGc <- true] of the first of them. *)
Record system : Type := mkSystem {
  sys_cache : Cache;
  sweeper : sweeper_state;
  sending : nat
}.

(** [NewCache] builds the cache and starts [gcLoop], whose first statement
    is [time.NewTicker(c.gcInterval)]. *)
Definition NewCache (defaultExpiration gcInterval : Z) : system :=
  mkSystem (mkCache defaultExpiration ∅ false gcInterval)
    (if 0 <? gcInterval then InSelect else Crashed) 0%nat.

(** [StopGc] is the send [c.stopGc <- true]: the caller enters it here and
    leaves it in [step_stop].  [n] is the number of calls the caller makes
    in a row. *)
Definition StopGc (n : nat) (s : system) : system :=
  mkSystem (sys_cache s) (sweeper s) (sending s + n).

(** The steps of the sweeper and of the caller of [StopGc], the only
    goroutines of the system.  [stopGc] is unbuffered: a send completes only
    together with a receive, and the only receive is the second case of the
    [select] in [gcLoop].  A sweeper parked in [mu.Lock] goes on with its
    sweep once the mutex is free.  Every method gives the mutex back before
    it returns, but for the error paths of [Update] and [Inc], whose
    goroutine parks while it holds the mutex: between steps a held mutex is
    one that nobody will release. *)
Inductive step : system -> system -> Prop :=
| step_tick s now c' :
    sweeper s = InSelect ->
    DeleteExpired now (sys_cache s) = Returned tt c' ->
    step s (mkSystem c' InSelect (sending s))
| step_tick_parked s now c' :
    sweeper s = InSelect ->
    DeleteExpired now (sys_cache s) = Blocked c' ->
    step s (mkSystem c' InLock (sending s))
| step_resume s now c' :
    sweeper s = InLock ->
    DeleteExpired now (sys_cache s) = Returned tt c' ->
    step s (mkSystem c' InSelect (sending s))
| step_stop s n :
    sweeper s = InSelect ->
    sending s = S n ->
    step s (mkSystem (sys_cache s) Exited n).

End Cache.

Arguments Returned {V A} a c.
Arguments Blocked {V A} c.
Arguments Fatal {V A} c.

(** A codec for the examples: a stream holds the entry map itself or
    nothing, every value can be registered, encoding never fails, and an
    empty stream does not decode. *)
Definition plain_gob : @Gob Z (option (gmap string (@Item Z))) :=
  {| gob_Register := fun _ => true;
     gob_Encode := fun m => Encoded (Some m);
     gob_Decode := fun s =>
       match s with
       | Some m => inl m
       | None => inr (GobError "EOF")
       end |}.





(** A cache that holds ["a"] with value [1] and no expiration. *)
Definition one_entry : @Cache Z :=
  mkCache 0 {["a" := mkItem (Some 1) 0]} false 1.

(** A cache that holds ["x"], expiring at time [10], and ["y"], which never
    expires. *)
Definition two_entries : @Cache Z :=
  mkCache 0 (<["x" := mkItem (Some 1) 10]> {["y" := mkItem (Some 2) 0]}) false 1.

(** A snapshot that holds ["a"] with value [2]. *)
Definition snapshot : gmap string (@Item Z) := {["a" := mkItem (Some 2) 0]}.

(** * Properties *)

Section Properties.

Context {V stream : Type} `{!@Gob V stream}.

Implicit Types (c : @Cache V) (k : string) (v : @interface V) (item : @Item V).

(** ** Arithmetic of [int64] *)

Lemma wrap64_id z : int64 z -> wrap64 z = z.
Proof.
  unfold int64, wrap64, min_int64, max_int64. intros Hz.
  rewrite Z.mod_small; lia.
Qed.

Lemma wrap64_overflow z : max_int64 < z <= 2 * max_int64 -> wrap64 z < 0.
Proof.
  unfold wrap64, max_int64. intros Hz.
  replace (z + 2 ^ 63) with (z - 2 ^ 63 + 1 * 2 ^ 64) by lia.
  rewrite Z.mod_add by lia. rewrite Z.mod_small; lia.
Qed.

(** ** The helpers *)

Lemma Expired_true now item :
  Expired now item = true <-> 0 < Expiration item /\ Expiration item < now.
Proof. unfold Expired. rewrite andb_true_iff, !Z.ltb_lt. tauto. Qed.

Lemma Expired_false now item :
  Expired now item = false <-> Expiration item <= 0 \/ now <= Expiration item.
Proof. unfold Expired. rewrite andb_false_iff, !Z.ltb_ge. tauto. Qed.

Lemma live_true now k c :
  live now k c = true <->
  exists item, items c !! k = Some item /\ Expired now item = false.
Proof.
  unfold live, get. destruct (items c !! k) as [item|].
  - destruct (Expired now item) eqn:E; simpl; split; try done.
    + intros (item' & [= <-] & E'). congruence.
    + eauto.
  - simpl. split; [done | intros (? & ? & _); done].
Qed.

Lemma live_false now k c :
  live now k c = false <->
  items c !! k = None \/
  exists item, items c !! k = Some item /\ Expired now item = true.
Proof.
  unfold live, get. destruct (items c !! k) as [item|].
  - destruct (Expired now item) eqn:E; simpl; split; try done; eauto.
    intros [? | (item' & [= <-] & E')]; congruence.
  - simpl. split; auto.
Qed.

Lemma get_live now k c item :
  items c !! k = Some item -> Expired now item = false ->
  get now k c = (Object item, true).
Proof. unfold get. intros -> ->. done. Qed.



Lemma unlock_lock c : mu c = false -> with_mu false (with_mu true c) = c.
Proof. destruct c; simpl; intros ->; done. Qed.

(** ** Running a method on a cache whose mutex is free *)

Lemma Get_returns now k c : mu c = false -> Get now k c = Returned (get now k c) c.
Proof. destruct c; simpl; intros ->; done. Qed.

Lemma Set_returns now k v d c :
  mu c = false -> Set_ now k v d c = Returned tt (set now k v d c).
Proof. destruct c; simpl; intros ->; done. Qed.

Lemma Flush_returns c : mu c = false -> Flush c = Returned tt (with_items ∅ c).
Proof. destruct c; simpl; intros ->; done. Qed.


(** [Add], [Update] and [Inc] start alike: take the mutex, then look the
    key up. *)
Lemma locked_get {A} now k (f : interface * bool -> M A) c :
  mu c = false ->
  bind mu_Lock (fun _ => bind (gets (get now k)) f) c
  = f (get now k c) (with_mu true c).
Proof. destruct c; simpl; intros ->; done. Qed.

Local Ltac key_check Hmu Hl :=
  unfold Add, Update, Inc; rewrite locked_get by done;
  unfold live in Hl; rewrite Hl; simpl;
  unfold bind, modify, ret, mu_Unlock, mu_Lock; simpl;
  rewrite ?unlock_lock by done;
  try (f_equal; apply (f_equal (fun b => Returned _ b)));
  try done.

Lemma set_unlocked now k v d c :
  mu c = false -> with_mu false (set now k v d (with_mu true c)) = set now k v d c.
Proof. destruct c; simpl; intros ->; done. Qed.

Lemma Add_live now now' k v d c :
  mu c = false -> live now k c = true ->
  Add now now' k v d c = Returned (Some (Errorf "Item % s already exists" [k])) c.
Proof. intros Hmu Hl. key_check Hmu Hl. Qed.

Lemma Add_not_live now now' k v d c :
  mu c = false -> live now k c = false ->
  Add now now' k v d c = Returned None (set now' k v d c).
Proof. intros Hmu Hl. key_check Hmu Hl. by rewrite set_unlocked. Qed.

Lemma Update_live now now' k v d c :
  mu c = false -> live now k c = true ->
  Update now now' k v d c = Returned None (set now' k v d c).
Proof. intros Hmu Hl. key_check Hmu Hl. by rewrite set_unlocked. Qed.

Lemma Update_not_live now now' k v d c :
  mu c = false -> live now k c = false ->
  Update now now' k v d c = Blocked (with_mu true c).
Proof. intros Hmu Hl. key_check Hmu Hl. Qed.

Lemma Inc_live now k n c :
  mu c = false -> live now k c = true -> Inc now k n c = Returned None c.
Proof. intros Hmu Hl. key_check Hmu Hl. Qed.

Lemma Inc_not_live now k n c :
  mu c = false -> live now k c = false -> Inc now k n c = Blocked (with_mu true c).
Proof. intros Hmu Hl. key_check Hmu Hl. Qed.

(** The expiration that [set] stores for a positive duration. *)
Lemma set_lookup now k v d c :
  items (set now k v d c) !! k =
  Some (mkItem v (let d' := if d =? DefaultExpiration then defaultExpiration c else d in
                  if 0 <? d' then wrap64 (now + d') else 0)).
Proof. unfold set. simpl. by rewrite lookup_insert_eq. Qed.

(** ** The loop of [DeleteExpired] *)

(** Whether the sweep removes an entry. *)
Local Abbreviation stale now item :=
  (0 < Expiration item /\ Expiration item < now) (only parsing).

Lemma sweep_step_items now c kv :
  items (sweep_step now c kv) =
  if decide (stale now kv.2) then delete kv.1 (items c) else items c.
Proof.
  unfold sweep_step.
  destruct (Z.gtb_spec (Expiration kv.2) 0), (Z.gtb_spec now (Expiration kv.2));
    simpl; case_decide; try done; lia.
Qed.

Lemma sweep_step_fields now c kv :
  defaultExpiration (sweep_step now c kv) = defaultExpiration c
  /\ mu (sweep_step now c kv) = mu c
  /\ gcInterval (sweep_step now c kv) = gcInterval c.
Proof. unfold sweep_step. by destruct (_ && _). Qed.

Lemma sweep_loop_fields now l c :
  defaultExpiration (sweep_loop now l c) = defaultExpiration c
  /\ mu (sweep_loop now l c) = mu c
  /\ gcInterval (sweep_loop now l c) = gcInterval c.
Proof.
  revert c. induction l as [|kv l IH]; intros c; [done|].
  simpl. destruct (IH (sweep_step now c kv)) as (-> & -> & ->).
  apply sweep_step_fields.
Qed.

(** The loop only deletes. *)
Lemma sweep_loop_lookup_None now l c j :
  items c !! j = None -> items (sweep_loop now l c) !! j = None.
Proof.
  revert c. induction l as [|kv l IH]; intros c Hj; [done|].
  simpl. apply IH. rewrite sweep_step_items.
  case_decide; [|done]. rewrite lookup_delete. by case_decide.
Qed.

Lemma sweep_loop_lookup_stale now l c j item :
  (j, item) ∈ l -> stale now item -> items (sweep_loop now l c) !! j = None.
Proof.
  revert c. induction l as [|kv l IH]; intros c Hin Hst.
  { by apply elem_of_nil in Hin. }
  apply elem_of_cons in Hin as [<- | Hin]; [|by apply IH].
  simpl. apply sweep_loop_lookup_None. rewrite sweep_step_items. simpl.
  rewrite decide_True by done. apply lookup_delete_eq.
Qed.

Lemma sweep_loop_lookup_fresh now l c j :
  (forall item, (j, item) ∈ l -> ~ stale now item) ->
  items (sweep_loop now l c) !! j = items c !! j.
Proof.
  revert c. induction l as [|kv l IH]; intros c Hl; [done|].
  simpl. rewrite IH.
  - rewrite sweep_step_items. case_decide as Hst; [|done].
    rewrite lookup_delete_ne; [done|]. intros <-.
    apply (Hl kv.2); [|done]. destruct kv. apply elem_of_cons. by left.
  - intros item Hin. apply Hl. apply elem_of_cons. by right.
Qed.

(** Whatever order [range] picks, the loop leaves the entries that are not
    stale. *)
Lemma sweep_loop_lookup now l c j :
  l ≡ₚ map_to_list (items c) ->
  items (sweep_loop now l c) !! j =
  match items c !! j with
  | Some item => if decide (stale now item) then None else Some item
  | None => None
  end.
Proof.
  intros Hl.
  assert (forall i x, (i, x) ∈ l <-> items c !! i = Some x) as Hel.
  { intros i x. rewrite Hl. apply elem_of_map_to_list. }
  destruct (items c !! j) as [item|] eqn:Hj.
  - case_decide as Hst.
    + apply sweep_loop_lookup_stale with item; [by apply Hel | done].
    + rewrite sweep_loop_lookup_fresh; [done|].
      intros item' Hin. apply Hel in Hin. by simplify_eq.
  - by apply sweep_loop_lookup_None.
Qed.

Lemma Cache_eq c c' :
  defaultExpiration c = defaultExpiration c' -> items c = items c' ->
  mu c = mu c' -> gcInterval c = gcInterval c' -> c = c'.
Proof. destruct c, c'; simpl; by intros -> -> -> ->. Qed.

Lemma sweep_loop_filter now l c :
  l ≡ₚ map_to_list (items c) ->
  sweep_loop now l c
  = with_items (filter (fun kv => ~ stale now kv.2) (items c)) c.
Proof.
  intros Hl. destruct (sweep_loop_fields now l c) as (? & ? & ?).
  apply Cache_eq; try done. simpl. apply map_eq. intros j.
  rewrite sweep_loop_lookup by done.
  destruct (items c !! j) as [item|] eqn:Hj.
  - case_decide as Hst; symmetry.
    + apply map_lookup_filter_None. right. intros x Hx. simplify_eq. simpl. tauto.
    + by apply map_lookup_filter_Some.
  - symmetry. apply map_lookup_filter_None. by left.
Qed.

Lemma DeleteExpired_returns now c :
  mu c = false ->
  DeleteExpired now c
  = Returned tt (with_items (filter (fun kv => ~ stale now kv.2) (items c)) c).
Proof.
  intros Hmu. unfold DeleteExpired, bind, modify, mu_Lock, mu_Unlock.
  rewrite Hmu. simpl.
  rewrite sweep_loop_filter by done.
  simpl. f_equal. destruct c; simpl in *; by subst.
Qed.


(** ** The loop of [Load] *)

Lemma merge_step_fields clock c kv :
  defaultExpiration (merge_step clock c kv) = defaultExpiration c
  /\ mu (merge_step clock c kv) = mu c
  /\ gcInterval (merge_step clock c kv) = gcInterval c.
Proof.
  unfold merge_step. destruct (items c !! kv.1) as [item|]; [|done].
  by destruct (Expired _ item).
Qed.

Lemma merge_loop_fields clock l c :
  defaultExpiration (merge_loop clock l c) = defaultExpiration c
  /\ mu (merge_loop clock l c) = mu c
  /\ gcInterval (merge_loop clock l c) = gcInterval c.
Proof.
  revert c. induction l as [|kv l IH]; intros c; [done|].
  simpl. destruct (IH (merge_step clock c kv)) as (-> & -> & ->).
  apply merge_step_fields.
Qed.

Lemma merge_step_lookup_ne clock c kv j :
  j ≠ kv.1 -> items (merge_step clock c kv) !! j = items c !! j.
Proof.
  intros Hne. unfold merge_step.
  destruct (items c !! kv.1) as [item|]; [destruct (Expired _ item)|];
    simpl; rewrite ?lookup_insert_ne; done.
Qed.

Lemma merge_step_lookup_eq clock c kv :
  items (merge_step clock c kv) !! kv.1 =
  if live (clock kv.1) kv.1 c then items c !! kv.1 else Some kv.2.
Proof.
  unfold merge_step, live, get.
  destruct (items c !! kv.1) as [item|] eqn:Hk; simpl.
  - destruct (Expired _ item); simpl; [by rewrite lookup_insert_eq | done].
  - by rewrite lookup_insert_eq.
Qed.

Lemma merge_loop_lookup_notin clock l c j :
  j ∉ l.*1 -> items (merge_loop clock l c) !! j = items c !! j.
Proof.
  revert c. induction l as [|kv l IH]; intros c Hj; [done|].
  rewrite fmap_cons, not_elem_of_cons in Hj. destruct Hj as [Hne Hj].
  simpl. rewrite IH by done. by apply merge_step_lookup_ne.
Qed.

Lemma merge_loop_lookup_in clock l c j x :
  NoDup l.*1 -> (j, x) ∈ l ->
  items (merge_loop clock l c) !! j =
  if live (clock j) j c then items c !! j else Some x.
Proof.
  revert c. induction l as [|kv l IH]; intros c Hnd Hin.
  { by apply elem_of_nil in Hin. }
  rewrite fmap_cons in Hnd. apply NoDup_cons in Hnd as [Hfresh Hnd].
  apply elem_of_cons in Hin as [<- | Hin]; simpl.
  - rewrite merge_loop_lookup_notin by done. apply merge_step_lookup_eq.
  - assert (j ≠ kv.1) as Hne.
    { intros ->. apply Hfresh. apply list_elem_of_fmap. by exists (kv.1, x). }
    rewrite IH by done. unfold live, get.
    by rewrite merge_step_lookup_ne.
Qed.

(** Whatever order [range] picks, a decoded entry is installed exactly
    where the store holds no live entry. *)
Lemma merge_loop_lookup clock l (decoded : gmap string Item) c j :
  l ≡ₚ map_to_list decoded ->
  items (merge_loop clock l c) !! j =
  match decoded !! j with
  | Some x => if live (clock j) j c then items c !! j else Some x
  | None => items c !! j
  end.
Proof.
  intros Hl.
  assert (NoDup l.*1) as Hnd by (rewrite Hl; apply NoDup_fst_map_to_list).
  destruct (decoded !! j) as [x|] eqn:Hj.
  - apply merge_loop_lookup_in; [done|]. rewrite Hl. by apply elem_of_map_to_list.
  - apply merge_loop_lookup_notin. rewrite Hl.
    intros ([j' x] & -> & Hin)%list_elem_of_fmap.
    apply elem_of_map_to_list in Hin. simpl in *. congruence.
Qed.

Lemma Load_returns clock r decoded c :
  gob_Decode r = inl decoded -> mu c = false ->
  Load clock r c = Returned None (merge_loop clock (map_to_list decoded) c).
Proof.
  intros Hdec Hmu. unfold Load. rewrite Hdec.
  unfold bind, modify, ret, mu_Lock, mu_Unlock. rewrite Hmu. simpl.
  destruct (merge_loop_fields clock (map_to_list decoded) (with_mu true c))
    as (Hde & Hm & Hgi).
  rewrite Hm. simpl. f_equal.
  destruct (merge_loop_fields clock (map_to_list decoded) c) as (Hde' & Hm' & Hgi').
  apply Cache_eq; simpl.
  - by rewrite Hde, Hde'.
  - apply map_eq. intros j.
    rewrite !(merge_loop_lookup clock _ decoded) by done. done.
  - by rewrite Hm'.
  - by rewrite Hgi, Hgi'.
Qed.

Lemma Save_returns c :
  mu c = false ->
  Save c =
  Returned
    (if gob_Register (Object <$> (map_to_list (items c)).*2)
     then match gob_Encode (items c) with
          | Encoded s => (Some s, None)
          | EncodeError written err => (written, Some err)
          | EncodePanic written =>
              (written,
               Some (Errorf "Error registering item types with Gob library" []))
          end
     else (None, Some (Errorf "Error registering item types with Gob library" [])))
    c.
Proof.
  intros Hmu. unfold Save, bind at 1, mu_Lock. rewrite Hmu.
  unfold bind at 1, gets. simpl.
  assert (forall r : option stream * option error,
             bind mu_Unlock (fun _ => ret r) (with_mu true c) = Returned r c) as Hun.
  { intros r. unfold bind, ret, mu_Unlock. simpl. by rewrite unlock_lock. }
  destruct (gob_Register _); [|apply Hun].
  destruct (gob_Encode (items c)); apply Hun.
Qed.

(** ** Claims *)

(** C1. [Get] returns on every key, and reports [found = false] exactly
    when the key is absent or its entry is expired, that is, has
    [Expiration > 0] with the current time strictly beyond it; an entry with
    [Expiration <= 0] is always found.  After [Set] with a duration [d > 0]
    at time [t0], and with no sweep in between, [Get] at time [t] finds the
    value exactly when [t <= t0 + d]. *)
Theorem Get_found_iff_live c k now :
  mu c = false ->
  Get now k c = Returned (get now k c) c
  /\ ((get now k c).2 = false <->
        items c !! k = None \/
        exists item, items c !! k = Some item
                     /\ 0 < Expiration item /\ Expiration item < now)
  /\ ((get now k c).2 = true ->
        exists item, items c !! k = Some item /\ (get now k c).1 = Object item)
  /\ (forall item, items c !! k = Some item -> Expiration item <= 0 ->
        get now k c = (Object item, true))
  /\ (forall v d t0 t,
        int64 t0 -> 0 <= t0 -> int64 d -> 0 < d -> int64 t ->
        exists c1,
          Set_ t0 k v d c = Returned tt c1 /\ mu c1 = false /\
          Get t k c1 =
            Returned (if bool_decide (t <= t0 + d) then (v, true) else (nil, false)) c1).
Proof.
  intros Hmu. split; [by apply Get_returns|]. split; [|split; [|split]].
  - change ((get now k c).2) with (live now k c). rewrite live_false.
    setoid_rewrite Expired_true. done.
  - unfold get. destruct (items c !! k) as [item|]; [|done].
    destruct (Expired now item); [done|]. eauto.
  - intros item Hk He. apply get_live; [done|]. apply Expired_false. lia.
  - intros v d t0 t Ht0 Hpos Hd Hdpos Ht.
    exists (set t0 k v d c). split; [by apply Set_returns|]. split; [done|].
    rewrite Get_returns by done. f_equal.
    unfold get. rewrite set_lookup. simpl.
    assert ((d =? DefaultExpiration) = false) as ->
      by (apply Z.eqb_neq; unfold DefaultExpiration; lia).
    assert ((0 <? d) = true) as -> by (apply Z.ltb_lt; lia).
    unfold int64, min_int64, max_int64 in *.
    destruct (decide (t0 + d <= max_int64)) as [Hfit|Hover].
    + rewrite wrap64_id by (unfold int64, min_int64, max_int64 in *; lia).
      case_bool_decide.
      * assert (Expired t (mkItem v (t0 + d)) = false) as ->; [|done].
        apply Expired_false; simpl; lia.
      * assert (Expired t (mkItem v (t0 + d)) = true) as ->; [|done].
        apply Expired_true; simpl; lia.
    + pose proof (wrap64_overflow (t0 + d)) as Hneg.
      unfold max_int64 in *.
      rewrite bool_decide_eq_true_2 by lia.
      assert (Expired t (mkItem v (wrap64 (t0 + d))) = false) as ->; [|done].
      apply Expired_false; simpl; lia.
Qed.

(** C2. [Set] returns without an error and leaves under the key an entry
    with the given value, whatever was there before; a duration equal to
    [DefaultExpiration] is first replaced by the default of the cache; the
    stored expiration is [now + d], added as Go adds [int64] nanoseconds,
    when the resolved duration [d] is positive, which is the integer
    [now + d] whenever that instant fits [int64], and it is [0] otherwise,
    so for [NoExpiration] and for a default that is not positive. *)
Theorem Set_inserts c k v d now :
  mu c = false ->
  int64 now ->
  let d' := if decide (d = DefaultExpiration) then defaultExpiration c else d in
  exists e,
    Set_ now k v d c = Returned tt (with_items (<[k := mkItem v e]> (items c)) c)
    /\ (0 < d' -> e = wrap64 (now + d'))
    /\ (0 < d' -> now + d' <= max_int64 -> e = now + d')
    /\ (d' <= 0 -> e = 0)
    /\ (d = NoExpiration -> e = 0).
Proof.
  intros Hmu Hnow d'.
  rewrite Set_returns by done. unfold set.
  assert ((if d =? DefaultExpiration then defaultExpiration c else d) = d') as ->.
  { unfold d'. destruct (Z.eqb_spec d DefaultExpiration); case_decide; done. }
  eexists. split; [reflexivity|].
  destruct (Z.ltb_spec 0 d') as [Hpos|Hle].
  - repeat split; try lia.
    + intros _ Hfit. apply wrap64_id.
      unfold int64, min_int64, max_int64 in *. lia.
    + intros ->. unfold d', NoExpiration, DefaultExpiration in Hpos.
      rewrite decide_False in Hpos by lia. lia.
  - repeat split; try lia; done.
Qed.

(** C3. [Add] returns the "already exists" error exactly when a live entry
    is under the key, and then leaves the cache as it was; when the key is
    absent or its entry is expired, [Add] returns no error and leaves the
    cache as [Set] would: under the key the new value with the expiration
    that [Set] computes, and every other entry as it was. *)
Theorem Add_fails_iff_live c k v d now now' :
  mu c = false ->
  (live now k c = true <->
     exists item, items c !! k = Some item /\ Expired now item = false)
  /\ (live now k c = true ->
        Add now now' k v d c
        = Returned (Some (Errorf "Item % s already exists" [k])) c)
  /\ (live now k c = false ->
        exists c', Set_ now' k v d c = Returned tt c'
                   /\ Add now now' k v d c = Returned None c'
                   /\ mu c' = false
                   /\ items c' !! k =
                      Some (mkItem v
                              (let d' := if d =? DefaultExpiration
                                         then defaultExpiration c else d in
                               if 0 <? d' then wrap64 (now' + d') else 0))
                   /\ (forall k', k' <> k -> items c' !! k' = items c !! k')).
Proof.
  intros Hmu. split; [apply live_true|]. split.
  - intros Hl. by apply Add_live.
  - intros Hl. exists (set now' k v d c).
    split; [by apply Set_returns|]. split; [by apply Add_not_live|].
    split; [done|]. split; [apply set_lookup|].
    intros k' Hne. unfold set. simpl. by rewrite lookup_insert_ne.
Qed.

(** C4 (the code at the failing input). [Update] on a key that a fresh
    cache does not hold takes the mutex a second time on its error path and
    stays parked there: the call does not return its error. *)
Theorem Update_absent_key_never_returns (v : @interface V) :
  Update 0 0 "a" v 0 (sys_cache (NewCache (V:=V) 0 1))
  = Blocked (with_mu true (sys_cache (NewCache 0 1))).
Proof. reflexivity. Qed.

(** C5 (as amended). On a cache whose mutex is free, [Update] and [Inc]
    called on a key without a live entry take the mutex, look the key up,
    and then park in a second [Lock] with the mutex still held, never
    returning; [Add] on its error path, a key with a live entry, releases
    the mutex and returns its error. *)
Theorem Update_Inc_relock_Add_unlocks c k now :
  mu c = false ->
  (live now k c = false ->
     forall now' v d n,
       Update now now' k v d c = Blocked (with_mu true c)
       /\ Inc now k n c = Blocked (with_mu true c))
  /\ (live now k c = true ->
        forall now' v d,
          Add now now' k v d c
          = Returned (Some (Errorf "Item % s already exists" [k])) c).
Proof.
  intros Hmu. split.
  - intros Hl now' v d n. split; [by apply Update_not_live | by apply Inc_not_live].
  - intros Hl now' v d. by apply Add_live.
Qed.

(** C6. [DeleteExpired] removes the entries whose [Expiration] is positive
    and strictly below the current time, and leaves every other entry as it
    was; run a second time at the same time, it changes nothing. *)
Theorem DeleteExpired_removes_stale c now :
  mu c = false ->
  exists c',
    DeleteExpired now c = Returned tt c'
    /\ c' = with_items (filter (fun kv => ~ stale now kv.2) (items c)) c
    /\ (forall k,
          items c' !! k =
          match items c !! k with
          | Some item => if decide (stale now item) then None else Some item
          | None => None
          end)
    /\ DeleteExpired now c' = Returned tt c'.
Proof.
  intros Hmu. eexists. split; [by apply DeleteExpired_returns|].
  split; [done|]. split.
  - intros k. simpl. destruct (items c !! k) as [item|] eqn:Hk.
    + case_decide as Hst.
      * apply map_lookup_filter_None. right. intros x Hx. simplify_eq. simpl. tauto.
      * by apply map_lookup_filter_Some.
    + apply map_lookup_filter_None. by left.
  - rewrite DeleteExpired_returns by done. f_equal.
    apply Cache_eq; try done. simpl.
    apply map_filter_id. intros i x Hx.
    by apply map_lookup_filter_Some in Hx as [_ Hx].
Qed.

(** C7. When the stream decodes, [Load] returns no error and installs a
    decoded entry under its key only if the store holds no live entry there
    (the key is absent or its entry is expired when it is checked); keys
    that the snapshot lacks are untouched.  A live entry is kept, so [Get]
    answers on its key after [Load] as it did before. *)
Theorem Load_never_overwrites_live c clock r decoded :
  mu c = false ->
  gob_Decode r = inl decoded ->
  exists c',
    Load clock r c = Returned None c'
    /\ mu c' = false
    /\ (forall k,
          items c' !! k =
          match decoded !! k with
          | Some x => if live (clock k) k c then items c !! k else Some x
          | None => items c !! k
          end)
    /\ (forall k, live (clock k) k c = true ->
          items c' !! k = items c !! k
          /\ forall t, Get t k c' = Returned (get t k c) c').
Proof.
  intros Hmu Hdec. eexists. split; [by apply Load_returns|].
  destruct (merge_loop_fields clock (map_to_list decoded) c) as (_ & Hm & _).
  assert (forall k,
    items (merge_loop clock (map_to_list decoded) c) !! k =
    match decoded !! k with
    | Some x => if live (clock k) k c then items c !! k else Some x
    | None => items c !! k
    end) as Hlook by (intros k; by apply merge_loop_lookup).
  split; [congruence|]. split; [done|].
  intros k Hl.
  assert (items (merge_loop clock (map_to_list decoded) c) !! k = items c !! k) as Hk.
  { rewrite Hlook, Hl. by destruct (decoded !! k). }
  split; [done|]. intros t.
  rewrite Get_returns by congruence. f_equal.
  unfold get. by rewrite Hk.
Qed.


(** C10. When the stream does not decode, [Load] returns the decoder's
    error and the cache is left as it was; the mutex is not even taken. *)
Theorem Load_decode_error_keeps_store c clock r err :
  gob_Decode r = inr err ->
  Load clock r c = Returned (Some err) c.
Proof. intros Hdec. unfold Load. by rewrite Hdec. Qed.

(** ** The stop channel *)

Lemma step_needs_sweeper (s s' : @system V) :
  step s s' -> sweeper s = InSelect \/ sweeper s = InLock.
Proof. destruct 1; auto. Qed.

(** Once the sweeper has exited, or the program has crashed, nothing moves
    any more. *)
Lemma stuck_forever (s s' : @system V) :
  sweeper s = Exited \/ sweeper s = Crashed -> rtc step s s' -> s' = s.
Proof.
  intros Hs Hrun. destruct Hrun as [|s y z Hstep _]; [done|].
  apply step_needs_sweeper in Hstep. destruct Hs, Hstep; congruence.
Qed.

(** A sweeper parked on a mutex that is held stays parked. *)
Lemma parked_forever (s s' : @system V) :
  sweeper s = InLock -> mu (sys_cache s) = true -> rtc step s s' -> s' = s.
Proof.
  intros Hs Hmu Hrun. destruct Hrun as [|s y z Hstep _]; [done|].
  destruct Hstep as [s now c' Hsel _ | s now c' Hsel _ | s now c' _ Hdel | s n Hsel _];
    try congruence.
  unfold DeleteExpired, bind, mu_Lock in Hdel. by rewrite Hmu in Hdel.
Qed.

(** C9 (as amended). A call of [StopGc] returns only by handing its signal
    to a sweeper that waits in its [select], and the sweeper then exits.
    While the sweeper waits there and the mutex is free, that hand-over
    stays possible until it happens.  Once the sweeper has exited, nothing
    moves any more: the call never returns. *)
Theorem StopGc_needs_waiting_sweeper (s : @system V) n :
  sending s = S n ->
  (sweeper s = InSelect -> step s (mkSystem (sys_cache s) Exited n))
  /\ (forall s', step s s' -> sending s' = n ->
        sweeper s = InSelect /\ sweeper s' = Exited)
  /\ (sweeper s = Exited -> forall s', rtc step s s' -> s' = s)
  /\ (sweeper s = InSelect -> mu (sys_cache s) = false ->
        forall s', rtc step s s' ->
          (sending s' = S n /\ sweeper s' = InSelect /\ mu (sys_cache s') = false)
          \/ (sending s' = n /\ sweeper s' = Exited)).
Proof.
  intros Hn. split; [|split; [|split]].
  - intros Hs. by apply step_stop.
  - intros s' Hstep Hn'.
    destruct Hstep as [s now c' _ _ | s now c' _ _ | s now c' _ _ | s m Hsel _];
      simpl in *; try lia. done.
  - intros Hs s' Hrun. apply stuck_forever; [by left | done].
  - intros Hs Hmu.
    apply (rtc_ind_r (fun s' =>
      (sending s' = S n /\ sweeper s' = InSelect /\ mu (sys_cache s') = false)
      \/ (sending s' = n /\ sweeper s' = Exited))); [by left|].
    intros y z _ Hstep IH.
    destruct IH as [(Hy & Hsel & Hfree) | (Hy & Hex)].
    + destruct Hstep as [y now c' _ Hdel | y now c' _ Hdel | y now c' Hpark _
                        | y m _ Hm]; simpl.
      * left. rewrite DeleteExpired_returns in Hdel by done.
        injection Hdel as <-. done.
      * rewrite DeleteExpired_returns in Hdel by done. done.
      * congruence.
      * right. split; [congruence | done].
    + apply step_needs_sweeper in Hstep. destruct Hstep; congruence.
Qed.


(** * Further properties of the code *)

(** ** More on running the methods *)

Lemma Delete_returns k c : mu c = false -> Delete k c = Returned tt (delete_ k c).
Proof. destruct c; simpl; intros ->; done. Qed.

Lemma Count_returns c : mu c = false -> Count c = Returned (size (items c)) c.
Proof. destruct c; simpl; intros ->; done. Qed.

Lemma DeleteExpired_held now c : mu c = true -> DeleteExpired now c = Blocked c.
Proof. intros Hmu. unfold DeleteExpired, bind, mu_Lock. by rewrite Hmu. Qed.

Lemma Load_held clock r decoded c :
  gob_Decode r = inl decoded -> mu c = true -> Load clock r c = Blocked c.
Proof. intros Hdec Hmu. unfold Load, bind, mu_Lock. by rewrite Hdec, Hmu. Qed.

Lemma Save_held c : mu c = true -> Save c = Blocked c.
Proof. intros Hmu. unfold Save, bind, mu_Lock. by rewrite Hmu. Qed.

(** The methods that start with [c.mu.Lock()]. *)
Lemma held_blocks c :
  mu c = true ->
  (forall now k v d, Set_ now k v d c = Blocked c)
  /\ (forall now k, Get now k c = Blocked c)
  /\ (forall now now' k v d, Add now now' k v d c = Blocked c)
  /\ (forall now now' k v d, Update now now' k v d c = Blocked c)
  /\ (forall now k n, Inc now k n c = Blocked c)
  /\ (forall k, Delete k c = Blocked c)
  /\ Count c = Blocked c
  /\ Flush c = Blocked c.
Proof.
  intros Hmu.
  repeat split; intros;
    unfold Set_, Get, Add, Update, Inc, Delete, Count, Flush, bind, mu_Lock;
    by rewrite Hmu.
Qed.

Lemma set_items now k v d c :
  items (set now k v d c) =
  <[k := mkItem v (let d' := if d =? DefaultExpiration then defaultExpiration c else d in
                   if 0 <? d' then wrap64 (now + d') else 0)]> (items c).
Proof. done. Qed.

Lemma get_ext t k c c' : items c !! k = items c' !! k -> get t k c = get t k c'.
Proof. unfold get. by intros ->. Qed.

(** ** Properties *)

(** X1. [Delete] returns with the key gone and every other entry as it
    was: [Get] no longer finds the key at any time and answers on the other
    keys as before; on a key that the store does not hold, the cache is left
    as it was. *)
Theorem Delete_removes_only_key c k :
  mu c = false ->
  exists c',
    Delete k c = Returned tt c'
    /\ mu c' = false
    /\ items c' = delete k (items c)
    /\ (forall t, Get t k c' = Returned (nil, false) c')
    /\ (forall t k', k' <> k -> Get t k' c' = Returned (get t k' c) c')
    /\ (items c !! k = None -> c' = c).
Proof.
  intros Hmu. exists (delete_ k c). split; [by apply Delete_returns|].
  split; [done|]. split; [done|]. split; [|split].
  - intros t. rewrite Get_returns by done. f_equal.
    unfold get. simpl. by rewrite lookup_delete_eq.
  - intros t k' Hne. rewrite Get_returns by done. f_equal.
    apply get_ext. simpl. by rewrite lookup_delete_ne.
  - intros Hk. apply Cache_eq; try done. simpl. by apply delete_id.
Qed.

(** X2. [Count] returns the number of stored entries and changes nothing.
    [Set] raises it by one on a key that was not stored and leaves it alone
    otherwise; [Delete] lowers it by one on a stored key and leaves it alone
    otherwise.  Expired entries count: an entry that [Get] no longer finds
    is still counted. *)
Theorem Count_tracks_writes c k :
  mu c = false ->
  Count c = Returned (size (items c)) c
  /\ (forall now v d,
        exists c1, Set_ now k v d c = Returned tt c1
          /\ Count c1 =
             Returned (match items c !! k with
                       | Some _ => size (items c)
                       | None => S (size (items c))
                       end) c1)
  /\ (exists c1, Delete k c = Returned tt c1
        /\ Count c1 =
           Returned (match items c !! k with
                     | Some _ => pred (size (items c))
                     | None => size (items c)
                     end) c1)
  /\ (forall now item,
        items c !! k = Some item -> Expired now item = true ->
        Get now k c = Returned (nil, false) c /\ (0 < size (items c))%nat).
Proof.
  intros Hmu. split; [by apply Count_returns|]. split; [|split].
  - intros now v d. exists (set now k v d c).
    split; [by apply Set_returns|]. rewrite Count_returns by done. f_equal.
    rewrite set_items. destruct (items c !! k) as [item|] eqn:Hk.
    + by apply map_size_insert_Some.
    + by apply map_size_insert_None.
  - exists (delete_ k c). split; [by apply Delete_returns|].
    rewrite Count_returns by done. f_equal. simpl.
    destruct (items c !! k) as [item|] eqn:Hk.
    + by apply map_size_delete_Some.
    + by apply map_size_delete_None.
  - intros now item Hk Hexp. split.
    + rewrite Get_returns by done. f_equal. unfold get. by rewrite Hk, Hexp.
    + destruct (decide (size (items c) = 0%nat)) as [Hz|]; [|lia].
      apply map_size_empty_inv in Hz. rewrite Hz in Hk. done.
Qed.

(** X3. [Flush] returns with an empty store and the configuration of the
    cache kept: afterwards [Count] is [0], [Get] finds no key, a sweep has
    nothing to remove, and [Set] with [DefaultExpiration] still resolves to
    the default the cache was made with. *)
Theorem Flush_empties c :
  mu c = false ->
  exists c',
    Flush c = Returned tt c'
    /\ mu c' = false
    /\ items c' = ∅
    /\ Count c' = Returned 0%nat c'
    /\ (forall t k, Get t k c' = Returned (nil, false) c')
    /\ (forall now, DeleteExpired now c' = Returned tt c')
    /\ (forall now k v,
          Set_ now k v DefaultExpiration c'
          = Returned tt
              (with_items
                 {[k := mkItem v (if 0 <? defaultExpiration c
                                  then wrap64 (now + defaultExpiration c) else 0)]}
                 c)).
Proof.
  intros Hmu. exists (with_items ∅ c). split; [by apply Flush_returns|].
  split; [done|]. split; [done|]. split; [|split; [|split]].
  - by rewrite Count_returns.
  - intros t k. by rewrite Get_returns.
  - intros now. rewrite DeleteExpired_returns by done.
    f_equal; apply Cache_eq; try done; simpl; apply map_filter_empty.
  - intros now k v. by rewrite Set_returns.
Qed.

(** X4. Called with the mutex free, every method other than [Update] and
    [Inc] returns with the mutex free again, whatever the store holds and
    whatever the codec answers; the methods that only read leave the cache
    as it was. *)
Theorem methods_release_mutex c :
  mu c = false ->
  (forall now k v d, exists c', Set_ now k v d c = Returned tt c' /\ mu c' = false)
  /\ (forall now k, exists r, Get now k c = Returned r c)
  /\ (forall now now' k v d,
        exists e c', Add now now' k v d c = Returned e c' /\ mu c' = false)
  /\ (forall k, exists c', Delete k c = Returned tt c' /\ mu c' = false)
  /\ (exists n, Count c = Returned n c)
  /\ (exists c', Flush c = Returned tt c' /\ mu c' = false)
  /\ (forall now, exists c', DeleteExpired now c = Returned tt c' /\ mu c' = false)
  /\ (exists r, Save c = Returned r c)
  /\ (forall clock r, exists e c', Load clock r c = Returned e c' /\ mu c' = false).
Proof.
  intros Hmu. repeat split.
  - intros. eexists. split; [by apply Set_returns | done].
  - intros. eexists. by apply Get_returns.
  - intros now now' k v d. destruct (live now k c) eqn:Hl.
    + do 2 eexists. split; [by apply Add_live | done].
    + do 2 eexists. split; [by apply Add_not_live | done].
  - intros. eexists. split; [by apply Delete_returns | done].
  - eexists. by apply Count_returns.
  - eexists. split; [by apply Flush_returns | done].
  - intros. eexists. split; [by apply DeleteExpired_returns | done].
  - eexists. by apply Save_returns.
  - intros clock r. destruct (gob_Decode r) as [decoded|err] eqn:Hdec.
    + do 2 eexists. split; [by apply Load_returns|].
      destruct (merge_loop_fields clock (map_to_list decoded) c) as (_ & -> & _).
      done.
    + do 2 eexists. split; [|exact Hmu]. unfold Load. by rewrite Hdec.
Qed.

(** X5. While the mutex is held, every method that takes it parks in
    [Lock] and changes nothing; only [Load] on a stream that does not decode
    still returns, since it fails before it reaches the mutex. *)
Theorem held_mutex_blocks_every_method c :
  mu c = true ->
  (forall now k v d, Set_ now k v d c = Blocked c)
  /\ (forall now k, Get now k c = Blocked c)
  /\ (forall now now' k v d, Add now now' k v d c = Blocked c)
  /\ (forall now now' k v d, Update now now' k v d c = Blocked c)
  /\ (forall now k n, Inc now k n c = Blocked c)
  /\ (forall k, Delete k c = Blocked c)
  /\ Count c = Blocked c
  /\ Flush c = Blocked c
  /\ (forall now, DeleteExpired now c = Blocked c)
  /\ Save c = Blocked c
  /\ (forall clock r decoded, gob_Decode r = inl decoded -> Load clock r c = Blocked c)
  /\ (forall clock r err,
        gob_Decode r = inr err -> Load clock r c = Returned (Some err) c).
Proof.
  intros Hmu.
  destruct (held_blocks c Hmu) as (? & ? & ? & ? & ? & ? & ? & ?).
  repeat split; try done.
  - intros. by apply DeleteExpired_held.
  - by apply Save_held.
  - intros. by eapply Load_held.
  - intros clock r err Hdec. unfold Load. by rewrite Hdec.
Qed.

(** X6. A failed [Update] wedges the cache.  After [Update] on a key
    without a live entry, the store is as before but the mutex stays held:
    every later [Get], [Set], [Delete] and [Count] parks, the next tick
    parks the sweeper in [DeleteExpired], and from then on no [StopGc]
    returns. *)
Theorem failed_Update_wedges_cache c k now now' v d :
  mu c = false ->
  live now k c = false ->
  exists c',
    Update now now' k v d c = Blocked c'
    /\ items c' = items c
    /\ (forall t k', Get t k' c' = Blocked c')
    /\ (forall t k' v' d', Set_ t k' v' d' c' = Blocked c')
    /\ (forall k', Delete k' c' = Blocked c')
    /\ Count c' = Blocked c'
    /\ (forall n,
          step (mkSystem c' InSelect n) (mkSystem c' InLock n)
          /\ forall s', rtc step (mkSystem c' InLock n) s' -> sending s' = n).
Proof.
  intros Hmu Hl. exists (with_mu true c).
  split; [by apply Update_not_live|]. split; [done|].
  destruct (held_blocks (with_mu true c) eq_refl) as (HS & HG & _ & _ & _ & HD & HC & _).
  split; [done|]. split; [done|]. split; [done|]. split; [done|].
  intros n. split.
  - apply (step_tick_parked (mkSystem (with_mu true c) InSelect n) now); [done|].
    by apply DeleteExpired_held.
  - intros s' Hrun. apply parked_forever in Hrun; [by subst | done | done].
Qed.

(** X7. [Inc] on a key with a live entry returns no error and leaves the
    cache, the stored value included, exactly as it was, whatever the
    amount. *)
Theorem Inc_changes_nothing c k now n :
  mu c = false ->
  live now k c = true ->
  Inc now k n c = Returned None c.
Proof. intros Hmu Hl. by apply Inc_live. Qed.

(** X8. [Update] on a key with a live entry returns no error and leaves
    the cache as [Set] with the same arguments would: the entry holds the
    new value and a new expiration, and the other keys are untouched. *)
Theorem Update_live_writes_as_Set c k now now' v d :
  mu c = false ->
  live now k c = true ->
  exists c',
    Update now now' k v d c = Returned None c'
    /\ Set_ now' k v d c = Returned tt c'
    /\ mu c' = false
    /\ (exists e, items c' !! k = Some (mkItem v e))
    /\ (forall k', k' <> k -> items c' !! k' = items c !! k').
Proof.
  intros Hmu Hl. exists (set now' k v d c).
  split; [by apply Update_live|]. split; [by apply Set_returns|].
  split; [done|]. split.
  - eexists. apply set_lookup.
  - intros k' Hne. rewrite set_items. by rewrite lookup_insert_ne.
Qed.

(** X9. [Set] overwrites: of two writes to one key the later one alone
    decides the entry, value and expiration; writes to different keys do not
    disturb each other, so they give the same cache in either order. *)
Theorem Set_overwrites_and_commutes c k t1 v1 d1 t2 v2 d2 :
  mu c = false ->
  (exists c1 c2,
     Set_ t1 k v1 d1 c = Returned tt c1
     /\ Set_ t2 k v2 d2 c1 = Returned tt c2
     /\ Set_ t2 k v2 d2 c = Returned tt c2)
  /\ (forall k', k' <> k ->
        exists c1 c1' c2,
          Set_ t1 k v1 d1 c = Returned tt c1
          /\ Set_ t2 k' v2 d2 c1 = Returned tt c2
          /\ Set_ t2 k' v2 d2 c = Returned tt c1'
          /\ Set_ t1 k v1 d1 c1' = Returned tt c2
          /\ items c2 !! k = items c1 !! k).
Proof.
  intros Hmu. split.
  - exists (set t1 k v1 d1 c), (set t2 k v2 d2 c).
    split; [by apply Set_returns|]. split; [|by apply Set_returns].
    rewrite Set_returns by done. f_equal.
    apply Cache_eq; try done. rewrite !set_items. simpl.
    apply insert_insert_eq.
  - intros k' Hne.
    exists (set t1 k v1 d1 c), (set t2 k' v2 d2 c), (set t2 k' v2 d2 (set t1 k v1 d1 c)).
    split; [by apply Set_returns|]. split; [by apply Set_returns|].
    split; [by apply Set_returns|]. split.
    + rewrite Set_returns by done. f_equal.
      apply Cache_eq; try done. rewrite !set_items. simpl.
      by apply insert_insert_ne.
    + rewrite (set_items t2). by rewrite lookup_insert_ne.
Qed.

(** X10. Whatever the sweeper and [StopGc] do, the store only loses
    entries, and only entries that have an expiration: an entry with
    [Expiration <= 0] is still there, unchanged, after every run, and every
    entry found after a run was there before it. *)
Theorem sweeper_only_removes_expiring (s s' : @system V) :
  rtc step s s' ->
  (forall k item,
     items (sys_cache s) !! k = Some item -> Expiration item <= 0 ->
     items (sys_cache s') !! k = Some item)
  /\ (forall k item,
        items (sys_cache s') !! k = Some item ->
        items (sys_cache s) !! k = Some item).
Proof.
  intros Hrun. induction Hrun as [s | s y z Hstep _ [IHkeep IHold]]; [done|].
  assert ((forall k item,
             items (sys_cache s) !! k = Some item -> Expiration item <= 0 ->
             items (sys_cache y) !! k = Some item)
          /\ (forall k item,
                items (sys_cache y) !! k = Some item ->
                items (sys_cache s) !! k = Some item)) as [Hkeep Hold].
  { assert (forall now c',
              DeleteExpired now (sys_cache s) = Returned tt c' ->
              (forall k item,
                 items (sys_cache s) !! k = Some item -> Expiration item <= 0 ->
                 items c' !! k = Some item)
              /\ (forall k item,
                    items c' !! k = Some item ->
                    items (sys_cache s) !! k = Some item)) as Hsweep.
    { intros now c' Hdel. destruct (mu (sys_cache s)) eqn:Hmu.
      { by rewrite DeleteExpired_held in Hdel. }
      rewrite DeleteExpired_returns in Hdel by done. injection Hdel as <-.
      simpl. split.
      + intros k item Hk He. apply map_lookup_filter_Some. split; [done|].
        simpl. lia.
      + intros k item Hk. by apply map_lookup_filter_Some in Hk as [Hk _]. }
    destruct Hstep as [s now c' _ Hdel | s now c' _ Hdel | s now c' _ Hdel | s n _ _];
      simpl.
    - by apply (Hsweep now).
    - destruct (mu (sys_cache s)) eqn:Hmu.
      + rewrite DeleteExpired_held in Hdel by done. by injection Hdel as <-.
      + by rewrite DeleteExpired_returns in Hdel.
    - by apply (Hsweep now).
    - done. }
  split.
  - intros k item Hk He. apply IHkeep; [|done]. by apply Hkeep.
  - intros k item Hk. apply Hold. by apply IHold.
Qed.

(** X11. The sweeper does not stop on its own.  While nobody calls
    [StopGc] and the mutex is free, every run leaves the sweeper waiting in
    its [select] with the mutex free again: [gcLoop] returns only on a stop
    signal. *)
Theorem sweeper_runs_until_stopped (s s' : @system V) :
  sending s = 0%nat ->
  sweeper s = InSelect ->
  mu (sys_cache s) = false ->
  rtc step s s' ->
  sending s' = 0%nat /\ sweeper s' = InSelect /\ mu (sys_cache s') = false.
Proof.
  intros Hn Hs Hmu Hrun. revert s' Hrun. apply rtc_ind_r; [done|].
  intros y z _ Hstep (Hy & Hsel & Hfree).
  destruct Hstep as [y now c' _ Hdel | y now c' _ Hdel | y now c' Hpark _ | y m _ Hm];
    simpl.
  - rewrite DeleteExpired_returns in Hdel by done. by injection Hdel as <-.
  - by rewrite DeleteExpired_returns in Hdel.
  - congruence.
  - congruence.
Qed.

(** X12. A later sweep subsumes an earlier one: sweeping at [t1] and then
    at [t2 >= t1] leaves the cache that one sweep at [t2] leaves, and no
    sweep makes the store larger. *)
Theorem DeleteExpired_later_sweep_subsumes c t1 t2 :
  mu c = false ->
  t1 <= t2 ->
  exists c1 c2,
    DeleteExpired t1 c = Returned tt c1
    /\ DeleteExpired t2 c1 = Returned tt c2
    /\ DeleteExpired t2 c = Returned tt c2
    /\ (size (items c2) <= size (items c1) <= size (items c))%nat.
Proof.
  intros Hmu Hle. do 2 eexists.
  split; [by apply DeleteExpired_returns|].
  split; [by apply DeleteExpired_returns|]. split.
  - rewrite DeleteExpired_returns by done. f_equal.
    apply Cache_eq; try done. simpl.
    apply map_eq. intros i. apply option_eq. intros x.
    rewrite !map_lookup_filter_Some. simpl. intuition lia.
  - simpl. split; apply map_subseteq_size, map_filter_subseteq.
Qed.

(** X13. A sweep is invisible to readers: at the time of the sweep and at
    any later time, [Get] answers on every key as it would have without the
    sweep. *)
Theorem DeleteExpired_invisible_to_Get c now :
  mu c = false ->
  exists c',
    DeleteExpired now c = Returned tt c'
    /\ forall t k, now <= t -> Get t k c' = Returned (get t k c) c'.
Proof.
  intros Hmu. eexists. split; [by apply DeleteExpired_returns|].
  intros t k Hle. rewrite Get_returns by done. f_equal.
  unfold get. simpl.
  destruct (items c !! k) as [item|] eqn:Hk.
  - destruct (decide (stale now item)) as [Hst|Hst].
    + assert (filter (fun kv : string * Item => ~ stale now kv.2) (items c) !! k = None)
        as ->.
      { apply map_lookup_filter_None. right. intros x Hx. simplify_eq. simpl. tauto. }
      assert (Expired t item = true) as -> by (apply Expired_true; lia). done.
    + assert (filter (fun kv : string * Item => ~ stale now kv.2) (items c) !! k
              = Some item) as -> by (by apply map_lookup_filter_Some).
      done.
  - assert (filter (fun kv : string * Item => ~ stale now kv.2) (items c) !! k = None)
      as -> by (apply map_lookup_filter_None; by left).
    done.
Qed.

(** X14. [Save] never changes the cache and always gives the mutex back,
    also when gob panics.  It returns no error exactly when the
    registrations all return and the encoder succeeds, and then the writer
    has received the encoded store.  When a registration panics the encoder
    is not run: nothing is written and the error is the registering error.
    A panic of the encoder is reported as that same registering error and an
    error of the encoder as it is, and in both cases the writer keeps what
    the encoder had written by then. *)
Theorem Save_error_iff c :
  mu c = false ->
  exists w err,
    Save c = Returned (w, err) c
    /\ (err = None <->
          gob_Register (Object <$> (map_to_list (items c)).*2) = true
          /\ exists s, gob_Encode (items c) = Encoded s /\ w = Some s)
    /\ (gob_Register (Object <$> (map_to_list (items c)).*2) = false ->
          w = None
          /\ err = Some (Errorf "Error registering item types with Gob library" []))
    /\ (gob_Register (Object <$> (map_to_list (items c)).*2) = true ->
          forall written,
            (gob_Encode (items c) = EncodePanic written ->
               w = written
               /\ err = Some (Errorf "Error registering item types with Gob library" []))
            /\ (forall e, gob_Encode (items c) = EncodeError written e ->
                  w = written /\ err = Some e)).
Proof.
  intros Hmu. rewrite Save_returns by done.
  destruct (gob_Register _) eqn:Hreg.
  - destruct (gob_Encode (items c)) as [s|written e|written] eqn:Henc;
      do 2 eexists; (split; [reflexivity|]); (split; [|split]).
    + split; [intros _; split; [done | eauto] | done].
    + done.
    + intros _ written'. split; [done | intros e' ?; done].
    + split; [done | intros (_ & s & ? & _); done].
    + done.
    + intros _ written'. split; [done | intros e' [= <- <-]; done].
    + split; [done | intros (_ & s & ? & _); done].
    + done.
    + intros _ written'. split; [intros [= <-]; done | intros e' ?; done].
  - do 2 eexists. split; [reflexivity|]. split; [|split].
    + split; [done | intros (? & _); done].
    + done.
    + done.
Qed.

(** X15. [Load] never removes an entry: when the stream decodes, the keys
    of the store afterwards are those it had together with those of the
    snapshot, and the number of entries does not go down. *)
Theorem Load_keys_union c clock r decoded :
  mu c = false ->
  gob_Decode r = inl decoded ->
  exists c',
    Load clock r c = Returned None c'
    /\ dom (items c') = dom (items c) ∪ dom decoded
    /\ (size (items c) <= size (items c'))%nat.
Proof.
  intros Hmu Hdec. eexists. split; [by apply Load_returns|].
  assert (dom (items (merge_loop clock (map_to_list decoded) c))
          = dom (items c) ∪ dom decoded) as Hdom.
  { apply set_eq. intros k.
    rewrite elem_of_union, !elem_of_dom.
    rewrite (merge_loop_lookup clock _ decoded) by done.
    unfold live, get.
    destruct (decoded !! k) as [x|], (items c !! k) as [item|]; simpl;
      try destruct (Expired (clock k) item); simpl;
      rewrite !is_Some_alt; tauto. }
  split; [done|].
  rewrite <- !size_dom, Hdom. apply subseteq_size, union_subseteq_l.
Qed.

(** X16. Loading a snapshot a second time changes nothing: with the same
    clock readings, [Load] of the same stream on the cache that the first
    [Load] left returns that cache again. *)
Theorem Load_twice_same c clock r decoded :
  mu c = false ->
  gob_Decode r = inl decoded ->
  exists c',
    Load clock r c = Returned None c'
    /\ Load clock r c' = Returned None c'.
Proof.
  intros Hmu Hdec.
  destruct (merge_loop_fields clock (map_to_list decoded) c) as (Hde & Hm & Hgi).
  eexists. split; [by apply Load_returns|].
  rewrite (Load_returns clock r decoded) by congruence. f_equal.
  destruct (merge_loop_fields clock (map_to_list decoded)
              (merge_loop clock (map_to_list decoded) c)) as (? & ? & ?).
  apply Cache_eq; try done.
  apply map_eq. intros k.
  rewrite (merge_loop_lookup clock _ decoded) by done.
  destruct (decoded !! k) as [x|] eqn:Hk; [|done].
  destruct (live (clock k) k (merge_loop clock (map_to_list decoded) c)) eqn:Hl2;
    [done|].
  rewrite (merge_loop_lookup clock _ decoded) by done. rewrite Hk.
  destruct (live (clock k) k c) eqn:Hl1; [|done].
  exfalso. unfold live in Hl1, Hl2.
  rewrite (get_ext _ _ _ c) in Hl2; [congruence|].
  rewrite (merge_loop_lookup clock _ decoded) by done. rewrite Hk.
  unfold live. by rewrite Hl1.
Qed.


(** X18. The errors of [LoadFromFile].  An error of [os.Open] or of the
    decoder is returned with the cache untouched, the mutex not even taken.
    An error of [Close] is returned too, but only after the snapshot has
    been merged: the call then reports an error and leaves the store as a
    successful [Load] does. *)
Theorem LoadFromFile_error_paths c clock file os_Open closed :
  mu c = false ->
  (forall err, os_Open file = inr err ->
     LoadFromFile os_Open closed clock file c = Returned (Some err) c)
  /\ (forall r err, os_Open file = inl r -> gob_Decode r = inr err ->
        LoadFromFile os_Open closed clock file c = Returned (Some err) c)
  /\ (forall r decoded, os_Open file = inl r -> gob_Decode r = inl decoded ->
        exists c',
          Load clock r c = Returned None c'
          /\ LoadFromFile os_Open closed clock file c = Returned closed c'
          /\ forall k x, decoded !! k = Some x -> items c !! k = None ->
               items c' !! k = Some x).
Proof.
  intros Hmu. split; [|split].
  - intros err Hopen. unfold LoadFromFile. by rewrite Hopen.
  - intros r err Hopen Hdec. unfold LoadFromFile. rewrite Hopen.
    unfold bind, Load. by rewrite Hdec.
  - intros r decoded Hopen Hdec. eexists.
    split; [by apply Load_returns|]. split.
    + unfold LoadFromFile. rewrite Hopen. unfold bind.
      by rewrite (Load_returns clock r decoded).
    + intros k x Hk Hnone.
      rewrite (merge_loop_lookup clock _ decoded) by done. rewrite Hk.
      unfold live, get. by rewrite Hnone.
Qed.

(** X19. The errors of [SaveToFile].  An error of [os.Create] is returned
    at once: [Save] is not run and nothing is written.  Otherwise [Save]
    runs, and the file holds what [Save] wrote to it.  An error of [Save] is
    returned whatever [Close] answers, the error of [Close] being dropped.
    When [Save] succeeds the result is that of [Close], so the call can
    report an error although the whole snapshot is in the file.  The cache
    is never changed. *)
Theorem SaveToFile_error_paths c file os_Create closed :
  mu c = false ->
  (forall err, os_Create file = Some err ->
     SaveToFile os_Create closed file c = Returned (None, Some err) c)
  /\ (os_Create file = None ->
        exists w e,
          Save c = Returned (w, e) c
          /\ SaveToFile os_Create closed file c
             = Returned (w, match e with Some err => Some err | None => closed end) c
          /\ (e = None -> exists s, w = Some s /\ gob_Encode (items c) = Encoded s)).
Proof.
  intros Hmu. split.
  - intros err Hcreate. unfold SaveToFile. by rewrite Hcreate.
  - intros Hcreate. unfold SaveToFile. rewrite Hcreate. unfold bind.
    rewrite Save_returns by done.
    destruct (gob_Register _).
    + destruct (gob_Encode (items c)) as [s|written e|written]; do 2 eexists;
        (split; [reflexivity|]); simpl; (split; [done|]); try done.
      intros _. eauto.
    + do 2 eexists. split; [reflexivity|]. simpl. split; done.
Qed.

(** X20. After [Delete] the key is free again: [Add] on it returns no
    error and writes as [Set] does, whatever the clock reads, while [Update]
    on it finds nothing and parks in its second [Lock]. *)
Theorem Delete_then_Add_succeeds c k :
  mu c = false ->
  exists c1,
    Delete k c = Returned tt c1
    /\ (forall now now' v d,
          exists c2,
            Add now now' k v d c1 = Returned None c2
            /\ Set_ now' k v d c1 = Returned tt c2
            /\ Get now' k c2 = Returned (get now' k c2) c2
            /\ exists e, items c2 !! k = Some (mkItem v e))
    /\ (forall now now' v d,
          Update now now' k v d c1 = Blocked (with_mu true c1)).
Proof.
  intros Hmu. exists (delete_ k c). split; [by apply Delete_returns|].
  assert (forall now, live now k (delete_ k c) = false) as Hl.
  { intros now. unfold live, get. simpl. by rewrite lookup_delete_eq. }
  split.
  - intros now now' v d. exists (set now' k v d (delete_ k c)).
    split; [by apply Add_not_live|]. split; [by apply Set_returns|].
    split; [by apply Get_returns|]. eexists. apply set_lookup.
  - intros now now' v d. by apply Update_not_live.
Qed.

End Properties.

(** * The claims at concrete inputs *)

(** The scenario of the specification: a cache made at time [1000] holds
    ["x"] for 20ms; 30ms later [Get] no longer finds it. *)
Lemma Get_found_iff_live_witness :
  mu (sys_cache (NewCache (V:=Z) 0 50000000)) = false
  /\ exists c1,
       Set_ 1000 "x" (Some 1) 20000000 (sys_cache (NewCache 0 50000000))
       = Returned tt c1
       /\ Get 30001000 "x" c1 = Returned (nil, false) c1.
Proof.
  split; [reflexivity|].
  destruct (Get_found_iff_live (sys_cache (NewCache (V:=Z) 0 50000000)) "x" 0 eq_refl)
    as (_ & _ & _ & _ & Httl).
  destruct (Httl (Some 1) 20000000 1000 30001000) as (c1 & Hset & _ & Hget);
    try (unfold int64, min_int64, max_int64; lia).
  exists c1. split; [exact Hset|].
  rewrite Hget. rewrite bool_decide_eq_false_2 by lia. reflexivity.
Defined.

Lemma Set_inserts_witness :
  mu (sys_cache (NewCache (V:=Z) 0 50000000)) = false
  /\ int64 1000
  /\ exists e,
       Set_ 1000 "x" (Some 1) 20000000 (sys_cache (NewCache 0 50000000))
       = Returned tt
           (with_items (<["x" := mkItem (Some 1) e]> ∅)
              (sys_cache (NewCache 0 50000000)))
       /\ e = 20001000.
Proof.
  split; [reflexivity|].
  assert (int64 1000) as H64 by (unfold int64, min_int64, max_int64; lia).
  split; [exact H64|].
  destruct (Set_inserts (sys_cache (NewCache (V:=Z) 0 50000000)) "x" (Some 1)
              20000000 1000 eq_refl H64) as (e & Hset & _ & He & _).
  exists e. split; [exact Hset|].
  simpl in He. rewrite He; [reflexivity | lia | unfold max_int64; lia].
Defined.

Lemma Add_fails_iff_live_witness :
  mu (sys_cache (NewCache (V:=Z) 0 1)) = false
  /\ exists c',
       Add 5 6 "x" (Some 1) 0 (sys_cache (NewCache 0 1)) = Returned None c'
       /\ items c' !! "x" = Some (mkItem (Some 1) 0).
Proof.
  split; [reflexivity|].
  destruct (Add_fails_iff_live (sys_cache (NewCache (V:=Z) 0 1)) "x" (Some 1) 0 5 6
              eq_refl) as (_ & _ & Hadd).
  destruct (Hadd eq_refl) as (c' & _ & Hadd' & _ & Hk & _).
  exists c'. split; [exact Hadd' | exact Hk].
Defined.

(** [Add] on a key that holds a live entry hands its error back with the
    mutex released: it does not take the mutex a second time. *)
Lemma Add_error_path_releases_mutex :
  live 0 "a" one_entry = true
  /\ Add 0 0 "a" (Some 2) 0 one_entry
     = Returned (Some (Errorf "Item % s already exists" ["a"]))
         one_entry
  /\ forall c',
       Add 0 0 "a" (Some 2) 0 one_entry
       <> Blocked c'.
Proof.
  assert (live 0 "a" one_entry = true) as Hl.
  { apply live_true. eexists. split; [apply lookup_singleton_eq | reflexivity]. }
  split; [exact Hl|].
  rewrite (Add_live 0 0 "a" (Some 2) 0 one_entry eq_refl Hl).
  split; [reflexivity | discriminate].
Qed.

Lemma Update_Inc_relock_Add_unlocks_witness :
  mu (sys_cache (NewCache (V:=Z) 0 1)) = false
  /\ Update 0 0 "a" (Some 1) 0 (sys_cache (NewCache 0 1))
     = Blocked (with_mu true (sys_cache (NewCache 0 1)))
  /\ Inc 0 "a" 1 (sys_cache (NewCache (V:=Z) 0 1))
     = Blocked (with_mu true (sys_cache (NewCache 0 1))).
Proof.
  split; [reflexivity|].
  destruct (Update_Inc_relock_Add_unlocks (sys_cache (NewCache (V:=Z) 0 1)) "a" 0
              eq_refl) as (Hrelock & _).
  exact (Hrelock eq_refl 0 (Some 1) 0 1).
Defined.

Lemma DeleteExpired_removes_stale_witness :
  mu two_entries = false
  /\ exists c',
       DeleteExpired 100
         two_entries
       = Returned tt c'
       /\ items c' !! "x" = None
       /\ items c' !! "y" = Some (mkItem (Some 2) 0)
       /\ DeleteExpired 100 c' = Returned tt c'.
Proof.
  split; [reflexivity|].
  destruct (DeleteExpired_removes_stale
              two_entries 100 eq_refl)
    as (c' & Hrun & _ & Hlook & Hagain).
  exists c'. split; [exact Hrun|]. split; [|split; [|exact Hagain]].
  - rewrite Hlook. simpl. rewrite lookup_insert_eq.
    rewrite decide_True by (simpl; lia). reflexivity.
  - rewrite Hlook. simpl.
    rewrite lookup_insert_ne by discriminate. rewrite lookup_singleton_eq.
    rewrite decide_False by (simpl; lia). reflexivity.
Defined.

(** The scenario of the specification: ["a"] is live with value [1]; a
    snapshot that holds ["a"] with value [2] is loaded; [Get] still answers
    [1]. *)
Lemma Load_never_overwrites_live_witness :
  mu one_entry = false
  /\ gob_Decode (Gob:=plain_gob) (Some snapshot)
     = inl snapshot
  /\ exists c',
       Load (H:=plain_gob) (fun _ => 7) (Some snapshot)
         one_entry
       = Returned None c'
       /\ Get 8 "a" c' = Returned (Some 1, true) c'.
Proof.
  split; [reflexivity|]. split; [reflexivity|].
  destruct (Load_never_overwrites_live (H:=plain_gob)
              one_entry
              (fun _ => 7) (Some snapshot)
              snapshot eq_refl eq_refl)
    as (c' & Hload & _ & _ & Hlive).
  exists c'. split; [exact Hload|].
  assert (live 7 "a" one_entry = true) as Hl.
  { apply live_true. eexists. split; [apply lookup_singleton_eq | reflexivity]. }
  destruct (Hlive "a" Hl) as (_ & Hget). rewrite Hget. reflexivity.
Defined.

Lemma Save_plain_gob (c : @Cache Z) :
  mu c = false ->
  Save (H:=plain_gob) c = Returned (Some (Some (items c)), None) c.
Proof.
  intros Hmu. unfold Save, bind, gets, ret, mu_Lock, mu_Unlock.
  rewrite Hmu. simpl.
  f_equal. by apply unlock_lock.
Qed.



Lemma Load_decode_error_keeps_store_witness :
  gob_Decode (Gob:=plain_gob) None = inr (GobError "EOF")
  /\ Load (H:=plain_gob) (fun _ => 7) None
       one_entry
     = Returned (Some (GobError "EOF"))
         one_entry.
Proof.
  split; [reflexivity|].
  exact (Load_decode_error_keeps_store (H:=plain_gob) _ (fun _ => 7) None
           (GobError "EOF") eq_refl).
Defined.

(** A second [StopGc], and a [StopGc] sent to a sweeper that has exited,
    never return. *)
Lemma StopGc_after_exit_blocks_forever :
  (forall s',
     rtc step (mkSystem (sys_cache (NewCache (V:=Z) 0 1)) Exited 1) s' ->
     sending s' = 1%nat)
  /\ (forall s',
        rtc step (StopGc 2 (NewCache (V:=Z) 0 1)) s' -> (1 <= sending s')%nat).
Proof.
  split.
  - intros s' Hrun. apply stuck_forever in Hrun; [by subst | by left].
  - intros s' Hrun.
    assert ((sending s' = 2%nat /\ sweeper s' <> Exited)
            \/ (sending s' = 1%nat /\ sweeper s' = Exited)) as [[-> _] | [-> _]];
      [|lia..].
    revert s' Hrun. apply rtc_ind_r.
    { left. split; [reflexivity | discriminate]. }
    intros y z _ Hstep IH.
    destruct IH as [(Hy & _) | (_ & Hex)].
    + destruct Hstep as [y now c' _ _ | y now c' _ _ | y now c' _ _ | y m _ Hm];
        simpl.
      * left. split; [done | discriminate].
      * left. split; [done | discriminate].
      * left. split; [done | discriminate].
      * right. split; [congruence | done].
    + apply step_needs_sweeper in Hstep. destruct Hstep; congruence.
Qed.

Lemma StopGc_needs_waiting_sweeper_witness :
  sending (StopGc 1 (NewCache (V:=Z) 0 1)) = 1%nat
  /\ step (StopGc 1 (NewCache (V:=Z) 0 1))
       (mkSystem (sys_cache (NewCache 0 1)) Exited 0).
Proof.
  split; [reflexivity|].
  destruct (StopGc_needs_waiting_sweeper (StopGc 1 (NewCache (V:=Z) 0 1)) 0 eq_refl)
    as (Hstop & _).
  exact (Hstop eq_refl).
Defined.

(** * The further properties at concrete inputs *)

Lemma Delete_removes_only_key_witness :
  mu one_entry = false
  /\ exists c',
       Delete "a" one_entry = Returned tt c'
       /\ items c' = delete "a" (items one_entry)
       /\ Get 3 "a" c' = Returned (nil, false) c'.
Proof.
  split; [reflexivity|].
  destruct (Delete_removes_only_key one_entry "a" eq_refl)
    as (c' & Hdel & _ & Hitems & Hget & _).
  exists c'. split; [exact Hdel|]. split; [exact Hitems | exact (Hget 3)].
Defined.

Lemma Count_tracks_writes_witness :
  mu one_entry = false
  /\ Count one_entry = Returned 1%nat one_entry
  /\ exists c1,
       Set_ 5 "b" (Some 2) 0 one_entry = Returned tt c1
       /\ Count c1 = Returned 2%nat c1.
Proof.
  split; [reflexivity|].
  destruct (Count_tracks_writes one_entry "b" eq_refl) as (Hcount & Hset & _).
  assert (size (items one_entry) = 1%nat) as Hsize by apply map_size_singleton.
  split.
  - rewrite Hcount, Hsize. reflexivity.
  - destruct (Hset 5 (Some 2) 0) as (c1 & Hc1 & Hn). exists c1.
    split; [exact Hc1|]. rewrite Hn, Hsize.
    assert (items one_entry !! "b" = None) as ->
      by (apply lookup_singleton_ne; discriminate).
    reflexivity.
Defined.

Lemma Flush_empties_witness :
  mu one_entry = false
  /\ exists c',
       Flush one_entry = Returned tt c'
       /\ Count c' = Returned 0%nat c'
       /\ Get 3 "a" c' = Returned (nil, false) c'.
Proof.
  split; [reflexivity|].
  destruct (Flush_empties one_entry eq_refl)
    as (c' & Hflush & _ & _ & Hcount & Hget & _).
  exists c'. split; [exact Hflush|]. split; [exact Hcount | exact (Hget 3 "a")].
Defined.

Lemma methods_release_mutex_witness :
  mu one_entry = false
  /\ (exists r, Save (H:=plain_gob) one_entry = Returned r one_entry)
  /\ exists e c',
       Load (H:=plain_gob) (fun _ => 7) (Some snapshot) one_entry = Returned e c'
       /\ mu c' = false.
Proof.
  split; [reflexivity|].
  destruct (methods_release_mutex (H:=plain_gob) one_entry eq_refl)
    as (_ & _ & _ & _ & _ & _ & _ & Hsave & Hload).
  split; [exact Hsave | exact (Hload (fun _ => 7) (Some snapshot))].
Defined.

Lemma held_mutex_blocks_every_method_witness :
  mu (with_mu true one_entry) = true
  /\ Get 3 "a" (with_mu true one_entry) = Blocked (with_mu true one_entry)
  /\ Save (H:=plain_gob) (with_mu true one_entry) = Blocked (with_mu true one_entry).
Proof.
  split; [reflexivity|].
  destruct (held_mutex_blocks_every_method (H:=plain_gob) (with_mu true one_entry)
              eq_refl)
    as (_ & Hget & _ & _ & _ & _ & _ & _ & _ & Hsave & _).
  split; [exact (Hget 3 "a") | exact Hsave].
Defined.

Lemma failed_Update_wedges_cache_witness :
  mu (sys_cache (NewCache (V:=Z) 0 1)) = false
  /\ live 0 "a" (sys_cache (NewCache (V:=Z) 0 1)) = false
  /\ exists c',
       Update 0 0 "a" (Some 1) 0 (sys_cache (NewCache 0 1)) = Blocked c'
       /\ Get 1 "b" c' = Blocked c'
       /\ step (mkSystem c' InSelect 1) (mkSystem c' InLock 1).
Proof.
  split; [reflexivity|]. split; [reflexivity|].
  destruct (failed_Update_wedges_cache (sys_cache (NewCache (V:=Z) 0 1)) "a" 0 0
              (Some 1) 0 eq_refl eq_refl)
    as (c' & Hupd & _ & Hget & _ & _ & _ & Hsys).
  exists c'. split; [exact Hupd|]. split; [exact (Hget 1 "b")|].
  exact (proj1 (Hsys 1%nat)).
Defined.

Lemma Inc_changes_nothing_witness :
  mu one_entry = false
  /\ live 3 "a" one_entry = true
  /\ Inc 3 "a" 10 one_entry = Returned None one_entry.
Proof.
  split; [reflexivity|]. split; [reflexivity|].
  exact (Inc_changes_nothing one_entry "a" 3 10 eq_refl eq_refl).
Defined.

Lemma Update_live_writes_as_Set_witness :
  mu one_entry = false
  /\ live 3 "a" one_entry = true
  /\ exists c',
       Update 3 4 "a" (Some 5) NoExpiration one_entry = Returned None c'
       /\ Set_ 4 "a" (Some 5) NoExpiration one_entry = Returned tt c'.
Proof.
  split; [reflexivity|]. split; [reflexivity|].
  destruct (Update_live_writes_as_Set one_entry "a" 3 4 (Some 5) NoExpiration
              eq_refl eq_refl)
    as (c' & Hupd & Hset & _).
  exists c'. split; [exact Hupd | exact Hset].
Defined.

Lemma Set_overwrites_and_commutes_witness :
  mu one_entry = false
  /\ exists c1 c2,
       Set_ 1 "a" (Some 7) 10 one_entry = Returned tt c1
       /\ Set_ 2 "a" (Some 8) NoExpiration c1 = Returned tt c2
       /\ Set_ 2 "a" (Some 8) NoExpiration one_entry = Returned tt c2.
Proof.
  split; [reflexivity|].
  exact (proj1 (Set_overwrites_and_commutes one_entry "a" 1 (Some 7) 10
                  2 (Some 8) NoExpiration eq_refl)).
Defined.

Lemma sweeper_only_removes_expiring_witness :
  exists s',
    rtc step (mkSystem two_entries InSelect 0) s'
    /\ items (sys_cache s') !! "x" = None
    /\ items (sys_cache s') !! "y" = Some (mkItem (Some 2) 0).
Proof.
  pose proof (DeleteExpired_returns 100 two_entries eq_refl) as Hdel.
  pose proof (step_tick (mkSystem two_entries InSelect 0) 100 _ eq_refl Hdel) as Hstep.
  eexists. split; [exact (rtc_once _ _ Hstep)|]. split.
  - simpl. apply map_lookup_filter_None. right. intros item Hx.
    rewrite lookup_insert_eq in Hx. injection Hx as <-. simpl. lia.
  - refine (proj1 (sweeper_only_removes_expiring _ _ (rtc_once _ _ Hstep))
              "y" (mkItem (Some 2) 0) _ _).
    + simpl. rewrite lookup_insert_ne by discriminate. apply lookup_singleton_eq.
    + simpl. lia.
Defined.

Lemma sweeper_runs_until_stopped_witness :
  exists s',
    step (NewCache (V:=Z) 0 1) s'
    /\ sweeper s' = InSelect.
Proof.
  pose proof (DeleteExpired_returns 5 (sys_cache (NewCache (V:=Z) 0 1)) eq_refl) as Hdel.
  pose proof (step_tick (NewCache (V:=Z) 0 1) 5 _ eq_refl Hdel) as Hstep.
  eexists. split; [exact Hstep|].
  exact (proj1 (proj2 (sweeper_runs_until_stopped (NewCache 0 1) _
                         eq_refl eq_refl eq_refl (rtc_once _ _ Hstep)))).
Defined.

Lemma DeleteExpired_later_sweep_subsumes_witness :
  mu two_entries = false
  /\ 5 <= 100
  /\ exists c1 c2,
       DeleteExpired 5 two_entries = Returned tt c1
       /\ DeleteExpired 100 c1 = Returned tt c2
       /\ DeleteExpired 100 two_entries = Returned tt c2.
Proof.
  split; [reflexivity|].
  assert (5 <= 100) as Hle by lia. split; [exact Hle|].
  destruct (DeleteExpired_later_sweep_subsumes two_entries 5 100 eq_refl Hle)
    as (c1 & c2 & H1 & H2 & H3 & _).
  exists c1, c2. split; [exact H1|]. split; [exact H2 | exact H3].
Defined.

Lemma DeleteExpired_invisible_to_Get_witness :
  mu two_entries = false
  /\ exists c',
       DeleteExpired 100 two_entries = Returned tt c'
       /\ Get 100 "x" c' = Returned (get 100 "x" two_entries) c'.
Proof.
  split; [reflexivity|].
  destruct (DeleteExpired_invisible_to_Get two_entries 100 eq_refl)
    as (c' & Hdel & Hget).
  exists c'. split; [exact Hdel|]. apply Hget. lia.
Defined.

Lemma Save_error_iff_witness :
  mu one_entry = false
  /\ exists w err,
       Save (H:=plain_gob) one_entry = Returned (w, err) one_entry
       /\ err = None
       /\ w = Some (Some (items one_entry)).
Proof.
  split; [reflexivity|].
  destruct (Save_error_iff (H:=plain_gob) one_entry eq_refl)
    as (w & err & Hsave & Hok & _).
  exists w, err. split; [exact Hsave|].
  assert (err = None) as Herr.
  { apply Hok. split; [reflexivity|]. eexists. split; [reflexivity|].
    rewrite Save_plain_gob in Hsave by reflexivity. congruence. }
  split; [exact Herr|].
  apply Hok in Herr as (_ & s & Henc & ->). injection Henc as <-. reflexivity.
Defined.

Lemma Load_keys_union_witness :
  mu one_entry = false
  /\ gob_Decode (Gob:=plain_gob) (Some snapshot) = inl snapshot
  /\ exists c',
       Load (H:=plain_gob) (fun _ => 7) (Some snapshot) one_entry = Returned None c'
       /\ dom (items c') = dom (items one_entry) ∪ dom snapshot.
Proof.
  split; [reflexivity|]. split; [reflexivity|].
  destruct (Load_keys_union (H:=plain_gob) one_entry (fun _ => 7) (Some snapshot)
              snapshot eq_refl eq_refl)
    as (c' & Hload & Hdom & _).
  exists c'. split; [exact Hload | exact Hdom].
Defined.

Lemma Load_twice_same_witness :
  mu one_entry = false
  /\ gob_Decode (Gob:=plain_gob) (Some snapshot) = inl snapshot
  /\ exists c',
       Load (H:=plain_gob) (fun _ => 7) (Some snapshot) one_entry = Returned None c'
       /\ Load (H:=plain_gob) (fun _ => 7) (Some snapshot) c' = Returned None c'.
Proof.
  split; [reflexivity|]. split; [reflexivity|].
  exact (Load_twice_same (H:=plain_gob) one_entry (fun _ => 7) (Some snapshot)
           snapshot eq_refl eq_refl).
Defined.


Lemma LoadFromFile_error_paths_witness :
  mu one_entry = false
  /\ LoadFromFile (H:=plain_gob) (fun _ => inr (GobError "no such file")) None
       (fun _ => 7) "cache.gob" one_entry
     = Returned (Some (GobError "no such file")) one_entry.
Proof.
  split; [reflexivity|].
  exact (proj1 (LoadFromFile_error_paths (H:=plain_gob) one_entry (fun _ => 7)
                  "cache.gob" (fun _ => inr (GobError "no such file")) None eq_refl)
           (GobError "no such file") eq_refl).
Defined.

Lemma SaveToFile_error_paths_witness :
  mu one_entry = false
  /\ SaveToFile (H:=plain_gob) (fun _ => Some (GobError "read-only")) None
       "cache.gob" one_entry
     = Returned (None, Some (GobError "read-only")) one_entry.
Proof.
  split; [reflexivity|].
  exact (proj1 (SaveToFile_error_paths (H:=plain_gob) one_entry "cache.gob"
                  (fun _ => Some (GobError "read-only")) None eq_refl)
           (GobError "read-only") eq_refl).
Defined.

Lemma Delete_then_Add_succeeds_witness :
  mu one_entry = false
  /\ exists c1,
       Delete "a" one_entry = Returned tt c1
       /\ exists c2,
            Add 3 4 "a" (Some 9) 0 c1 = Returned None c2
            /\ Set_ 4 "a" (Some 9) 0 c1 = Returned tt c2.
Proof.
  split; [reflexivity|].
  destruct (Delete_then_Add_succeeds one_entry "a" eq_refl) as (c1 & Hdel & Hadd & _).
  exists c1. split; [exact Hdel|].
  destruct (Hadd 3 4 (Some 9) 0) as (c2 & H1 & H2 & _).
  exists c2. split; [exact H1 | exact H2].
Defined.
